(** * get-repos.py: the resumable repository fetcher

    A shallow embedding of [get-repos.py].  Python values, attribute access
    and exceptions are modelled as data; the statements of the script run in
    a state-and-exception monad over the store file, the error log and the
    pauses taken.  Output written with [print] is not modelled. *)

From Stdlib Require Import ZArith Ascii Lia.
From stdpp Require Import base option list gmap strings pretty.

Local Open Scope Z_scope.

(** ** Python values and exceptions *)

(** The payload of a [GithubException].  PyGithub attaches the decoded body
    of the response, a dict; a dict has a [get] method and no attribute
    called [message].  [DataRecord] stands for an object that does expose
    such an attribute next to [get]. *)
Inductive edata :=
| DataDict (items : list (string * string))
| DataRecord (message : string) (items : list (string * string)).

(** The exceptions the script meets.  [GithubException None] is an
    exception object without a [data] attribute.
    [RateLimitExceededException] is a subclass of [GithubException]; the
    handlers name it first, so it is a case of its own.  [RecursionError]
    is what the interpreter raises when its recursion limit is reached. *)
Inductive exn :=
| RateLimitExceededException
| GithubException (data : option edata)
| AttributeError
| KeyError
| TypeError
| ValueError
| EmptyDataError
| RecursionError.

Inductive value :=
| VNone
| VBool (b : bool)
| VInt (z : Z)
| VStr (s : string)
| VObj (repr : string).

Inductive result (A : Type) :=
| Ok (a : A)
| Raise (e : exn).
Arguments Ok {A} a.
Arguments Raise {A} e.

#[global] Instance result_ret : MRet result := λ A a, Ok a.
#[global] Instance result_bind : MBind result := λ A B f m,
  match m with
  | Ok a => f a
  | Raise e => Raise e
  end.

#[global] Instance edata_eq_dec : EqDecision edata.
Proof. solve_decision. Defined.
#[global] Instance exn_eq_dec : EqDecision exn.
Proof. solve_decision. Defined.
#[global] Instance value_eq_dec : EqDecision value.
Proof. solve_decision. Defined.

(** ** [int(x)] and [str(x)] *)

Definition is_space (c : ascii) : bool :=
  let n := nat_of_ascii c in
  ((9 <=? n) && (n <=? 13))%nat || (n =? 32)%nat.

Fixpoint lstrip (l : list ascii) : list ascii :=
  match l with
  | c :: l' => if is_space c then lstrip l' else l
  | [] => []
  end.

Definition strip (l : list ascii) : list ascii :=
  rev (lstrip (rev (lstrip l))).

Definition digit_of (c : ascii) : option Z :=
  let n := Z.of_nat (nat_of_ascii c) in
  if (48 <=? n) && (n <=? 57) then Some (n - 48) else None.

(** Decimal digits, single underscores allowed between two digits. *)
Fixpoint digits (l : list ascii) (acc : Z) (after_digit : bool) : option Z :=
  match l with
  | [] => if after_digit then Some acc else None
  | c :: l' =>
      if decide (c = "_"%char) then
        if after_digit then digits l' acc false else None
      else
        match digit_of c with
        | Some d => digits l' (10 * acc + d) true
        | None => None
        end
  end.

(** [int(s)] for a string in base ten: surrounding white space, an optional
    sign, then digits.  Only ASCII is looked at. *)
Definition int_of_string (s : string) : option Z :=
  match strip (String.list_ascii_of_string s) with
  | c :: l =>
      if decide (c = "-"%char) then Z.opp <$> digits l 0 false
      else if decide (c = "+"%char) then digits l 0 false
      else digits (c :: l) 0 false
  | [] => None
  end.

Definition py_int (v : value) : result Z :=
  match v with
  | VInt z => Ok z
  | VBool b => Ok (if b then 1 else 0)
  | VStr s =>
      match int_of_string s with
      | Some z => Ok z
      | None => Raise ValueError
      end
  | VNone | VObj _ => Raise TypeError
  end.

Definition py_str (v : value) : string :=
  match v with
  | VNone => "None"
  | VBool b => if b then "True" else "False"
  | VInt z => pretty z
  | VStr s => s
  | VObj repr => repr
  end.

Definition truthy (v : value) : bool :=
  match v with
  | VNone => false
  | VBool b => b
  | VInt z => negb (z =? 0)
  | VStr s => negb (bool_decide (s = ""))
  | VObj _ => true
  end.

(** ** Repositories *)

(** A repository object as the script sees it: reading an attribute gives a
    value or raises (PyGithub completes an object lazily, with a request that
    can fail); a name that is not in the map is not an attribute of the
    object. *)
Abbreviation Repository := (gmap string (result value)).

Definition getattr (repo : Repository) (prop : string) : result value :=
  match repo !! prop with
  | Some r => r
  | None => Raise AttributeError
  end.

(** [hasattr] answers False on [AttributeError] and lets any other exception
    through. *)
Definition hasattr (repo : Repository) (prop : string) : result bool :=
  match getattr repo prop with
  | Ok _ => Ok true
  | Raise AttributeError => Ok false
  | Raise e => Raise e
  end.

Definition PROPERTIES : list string :=
  [ "allow_auto_merge"; "allow_forking"; "allow_merge_commit";
    "allow_rebase_merge"; "allow_squash_merge"; "allow_update_branch";
    "archived"; "archive_url"; "blobs_url"; "branches_url"; "clone_url";
    "collaborators_url"; "comments_url"; "commits_url"; "compare_url";
    "contents_url"; "contributors_url"; "created_at"; "default_branch";
    "delete_branch_on_merge"; "deployments_url"; "description";
    "downloads_url"; "events_url"; "fork"; "forks"; "forks_count";
    "forks_url"; "full_name"; "git_commits_url"; "git_refs_url";
    "git_tags_url"; "git_url"; "has_downloads"; "has_issues"; "has_pages";
    "has_projects"; "has_wiki"; "homepage"; "hooks_url"; "html_url"; "id";
    "issue_comment_url"; "issue_events_url"; "issues_url"; "keys_url";
    "labels_url"; "language"; "languages_url"; "master_branch"; "merges_url";
    "milestones_url"; "mirror_url"; "name"; "network_count";
    "notifications_url"; "open_issues"; "open_issues_count"; "organization";
    "owner"; "parent"; "permissions"; "private"; "pulls_url"; "pushed_at";
    "releases_url"; "size"; "source"; "ssh_url"; "stargazers_count";
    "stargazers_url"; "statuses_url"; "subscribers_url"; "subscribers_count";
    "subscription_url"; "svn_url"; "tags_url"; "teams_url"; "topics";
    "trees_url"; "updated_at"; "url"; "visibility"; "watchers";
    "watchers_count" ].

(** [is_repo_we_care_about]: [repo.public and repo.language == "C" and not
    repo.fork], with the short-circuit evaluation of [and]. *)
Definition is_repo_we_care_about (repo : Repository) : result value :=
  public ← getattr repo "public";
  if truthy public then
    language ← getattr repo "language";
    if bool_decide (language = VStr "C") then
      fork ← getattr repo "fork";
      Ok (VBool (negb (truthy fork)))
    else Ok (VBool false)
  else Ok public.

(** The dictionary built for one repository: the loop over [PROPERTIES]
    copies each attribute the object has. *)
Fixpoint project (repo : Repository) (props : list string)
    (repo_dict : gmap string value) : result (gmap string value) :=
  match props with
  | [] => Ok repo_dict
  | prop :: props' =>
      has ← hasattr repo prop;
      if has : bool then
        v ← getattr repo prop;
        project repo props' (<[prop := v]> repo_dict)
      else project repo props' repo_dict
  end.

Definition dict_getitem (d : gmap string value) (key : string) : result value :=
  match d !! key with
  | Some v => Ok v
  | None => Raise KeyError
  end.

(** ** The store, the error log and the monad of the script *)

(** A line of the CSV store: the header, or the row of one dictionary (the
    columns are [PROPERTIES]; a key that is missing gives an empty field). *)
Inductive csv_line :=
| Header
| Row (repo_dict : gmap string value).

#[global] Instance csv_line_eq_dec : EqDecision csv_line.
Proof. solve_decision. Defined.

(** What the script acts on: the lines of the store file, the lines of
    [errors.log], the pauses taken with [time.sleep], and the number of
    invocations of the fetch routine so far (the remote and the clock answer
    by invocation). *)
Record world := World {
  file : list csv_line;
  log : list string;
  slept : list Z;
  invocations : nat
}.

Definition M (A : Type) : Type := world → result A * world.

#[global] Instance M_ret : MRet M := λ A a w, (Ok a, w).
#[global] Instance M_bind : MBind M := λ A B f m w,
  match m w with
  | (Ok a, w') => f a w'
  | (Raise e, w') => (Raise e, w')
  end.

Definition raise {A} (e : exn) : M A := λ w, (Raise e, w).

Definition lift {A} (r : result A) : M A := λ w, (r, w).

(** [try: m except e: handler e]. *)
Definition try_except {A} (m : M A) (handler : exn → M A) : M A := λ w,
  match m w with
  | (Ok a, w') => (Ok a, w')
  | (Raise e, w') => handler e w'
  end.

(** The position [f.tell()] of a file opened for appending is its end.  It
    is counted here in lines: every line holds at least its line break, so
    the position is zero exactly when nothing was written. *)
Definition tell (f : list csv_line) : nat := length f.

(** [df.to_csv(f, header=f.tell() == 0, index=False)] for the frame of one
    dictionary. *)
Definition to_csv (repo_dict : gmap string value) : M unit := λ w,
  let lines :=
    if (tell (file w) =? 0)%nat then [Header; Row repo_dict]
    else [Row repo_dict] in
  (Ok tt, World (file w ++ lines) (log w) (slept w) (invocations w)).

Definition logging_error (message : string) : M unit := λ w,
  (Ok tt, World (file w) (log w ++ [message]) (slept w) (invocations w)).

(** [time.sleep] refuses a negative length with [ValueError]. *)
Definition time_sleep (seconds : Z) : M unit := λ w,
  if seconds <? 0 then (Raise ValueError, w)
  else (Ok tt, World (file w) (log w) (slept w ++ [seconds]) (invocations w)).

(** ** [save_repos_to_file] *)

Definition hasattr_message (d : edata) : bool :=
  match d with
  | DataDict _ => false
  | DataRecord _ _ => true
  end.

Fixpoint assoc (items : list (string * string)) (key : string) : option string :=
  match items with
  | [] => None
  | (k, v) :: items' => if decide (k = key) then Some v else assoc items' key
  end.

(** [str(e.data.get('message'))]. *)
Definition data_get_message (d : edata) : string :=
  let items := match d with DataDict items | DataRecord _ items => items end in
  default "None" (assoc items "message").

(** The statements under the inner [try], for one repository. *)
Definition store_repo (repo : Repository) : M unit :=
  _ ← lift (getattr repo "name");
  repo_dict ← lift (project repo PROPERTIES ∅);
  match dict_getitem repo_dict "id" ≫= py_int with
  | Raise _ => mret tt
  | Ok _ => to_csv repo_dict
  end.

Arguments project : simpl never.
Arguments store_repo : simpl never.

(** The two handlers of the inner [try]. *)
Definition on_exception (repo : Repository) (e : exn) : M unit :=
  match e with
  | RateLimitExceededException => raise e
  | GithubException (Some d) =>
      if hasattr_message d then
        name ← lift (getattr repo "name");
        logging_error
          ("[+] " +:+ py_str name +:+ ": " +:+ data_get_message d +:+ " skipping.")
      else mret tt
  | GithubException None => raise e
  | _ => raise e
  end.

(** What iterating a [PaginatedList] gives, step by step: the next
    repository, or an exception raised while the next page is requested. *)
Inductive fetched :=
| Yield (repo : Repository)
| Broken (e : exn).

Abbreviation PaginatedList := (list fetched).

(** One turn of the [for] loop: the inner [try] with its handlers. *)
Definition handle_repo (repo : Repository) : M unit :=
  try_except (store_repo repo) (on_exception repo).

Arguments handle_repo : simpl never.

Fixpoint for_each (repos : PaginatedList) : M unit :=
  match repos with
  | [] => mret tt
  | Yield repo :: repos' =>
      _ ← handle_repo repo;
      for_each repos'
  | Broken e :: _ => raise e
  end.

Definition save_repos_to_file (repos : PaginatedList) : M unit :=
  try_except (for_each repos)
    (λ e, match e with
          | RateLimitExceededException => raise e
          | _ => raise e
          end).

(** ** [get_max_id] and the frame read back from the store *)

Inductive cursor :=
| NotSet
| Since (last_id : Z).

#[global] Instance cursor_eq_dec : EqDecision cursor.
Proof. solve_decision. Defined.

(** The frame [read_csv] returns with [usecols=["id"]] and the nullable
    integer type: one column, a cell being a number or missing. *)
Record DataFrame := { id_column : list (option Z) }.

(** [Series.max]: missing cells are left out; with no cell left the result is
    itself missing. *)
Definition Series_max (cells : list (option Z)) : option Z :=
  foldr (λ cell acc,
           match cell, acc with
           | Some z, Some m => Some (Z.max z m)
           | Some z, None => Some z
           | None, _ => acc
           end) None cells.

(** [np.isnan] of the maximum.  The column has the nullable integer type:
    its maximum, when no value is present, is [pd.NA], and [np.isnan]
    answers [pd.NA] for it ([None] here), not a boolean. *)
Definition np_isnan (x : option Z) : option bool :=
  match x with
  | None => None
  | Some _ => Some false
  end.

(** The truth value an [if] asks for: [pd.NA] has none, and asking for it
    raises [TypeError]. *)
Definition truth_value (b : option bool) : result bool :=
  match b with
  | Some b => Ok b
  | None => Raise TypeError
  end.

(** [get_max_id].  The handler takes [ValueError] only, prints, and raises
    the exception again. *)
Definition get_max_id (df : DataFrame) : result cursor :=
  let body :=
    let max_index := Series_max (id_column df) in
    isnan ← truth_value (np_isnan max_index);
    if isnan : bool then Ok NotSet
    else
      match max_index with
      | Some z => Ok (Since z)
      | None => Raise TypeError
      end in
  match body with
  | Raise ValueError => Raise ValueError
  | r => r
  end.

(** ** The remote, the clock and the loop *)

(** The handle [github], by invocation of the fetch routine: the list
    [get_repos(since=..., visibility="public")] iterates over, and the reset
    time of the core rate limit, in seconds, when the request for it
    answers. *)
Record Github := {
  get_repos : nat → cursor → PaginatedList;
  get_rate_limit : nat → result Z
}.

Section Fetcher.

(** The handle, the clock ([calendar.timegm(time.gmtime())], by
    invocation), and how pandas converts the text of a field of the id
    column that is not a plain number ([None] when it refuses). *)
Context (github : Github) (gmtime : nat → Z)
        (to_Int64 : string → option (option Z)).

(** A cell of the column, of type [pd.Int64Dtype()]: a number has to fit
    64 bits, two's complement; the conversion of one that does not is
    refused with [TypeError]. *)
Definition Int64 (cell : option Z) : result (option Z) :=
  match cell with
  | None => Ok None
  | Some z =>
      if (- 2 ^ 63 <=? z) && (z <? 2 ^ 63) then Ok (Some z)
      else Raise TypeError
  end.

(** The cell [read_csv] makes of the id field of a line that is read as
    data: an integer reads back as itself and an empty field as missing;
    the header, when it is read as data, has the text "id". *)
Definition id_cell (line : csv_line) : result (option Z) :=
  let convert text :=
    match to_Int64 text with
    | Some cell => Int64 cell
    | None => Raise ValueError
    end in
  match line with
  | Header => convert "id"
  | Row repo_dict =>
      match repo_dict !! "id" with
      | None | Some VNone => Ok None
      | Some (VInt z) => Int64 (Some z)
      | Some v => convert (py_str v)
      end
  end.

Fixpoint id_cells (lines : list csv_line) : result (list (option Z)) :=
  match lines with
  | [] => Ok []
  | line :: lines' =>
      cell ← id_cell line;
      cells ← id_cells lines';
      Ok (cell :: cells)
  end.

(** [pd.read_csv(filename, usecols=["id"], dtype={"id": pd.Int64Dtype()})]:
    the first line names the columns.  A file without a line has no column
    to parse, and a first line that is a row does not name a column id. *)
Definition read_csv (f : list csv_line) : result DataFrame :=
  match f with
  | [] => Raise EmptyDataError
  | Header :: lines =>
      cells ← id_cells lines;
      Ok {| id_column := cells |}
  | Row _ :: _ => Raise ValueError
  end.

(** The cursor the main block starts from, [f] being the file named on the
    command line: [last_id = 0], replaced by [get_max_id] of the store when
    the file is not empty. *)
Definition main_last_id (f : list csv_line) : result cursor :=
  if (tell f =? 0)%nat then Ok (Since 0)
  else df ← read_csv f; get_max_id df.

(** The handler of [RateLimitExceededException] in
    [get_repos_with_backoff], at invocation [n]. *)
Definition back_off (n : nat) : M unit :=
  reset_timestamp ← lift (get_rate_limit github n);
  let sleep_time := reset_timestamp - gmtime n + 5 in
  time_sleep sleep_time.

(** The statements after the [try]: read the store and take its maximum. *)
Definition read_last_id : M cursor := λ w,
  (df ← read_csv (file w); get_max_id df, w).

Definition enter : M nat := λ w,
  (Ok (invocations w),
   World (file w) (log w) (slept w) (S (invocations w))).

(** One invocation of [get_repos_with_backoff] up to its recursive call:
    the cursor it hands to the next invocation. *)
Definition cycle (since : cursor) : M cursor :=
  n ← enter;
  _ ← try_except
        (save_repos_to_file (get_repos github n since))
        (λ e, match e with
              | RateLimitExceededException => back_off n
              | _ => raise e
              end);
  read_last_id.

(** [get_repos_with_backoff] calls itself as its last statement, and every
    invocation stays on the stack of the interpreter.  The stack is counted
    in invocations: [depth] is the number of invocations the recursion
    limit leaves room for, and the invocation that does not fit raises
    [RecursionError] (where in it the limit is met depends on the frames
    the libraries take, which is not modelled). *)
Fixpoint get_repos_with_backoff (depth : nat) (since : cursor) (w : world)
    : result unit * world :=
  match depth with
  | O => (Raise RecursionError, w)
  | S depth' =>
      match cycle since w with
      | (Raise e, w') => (Raise e, w')
      | (Ok last_id, w') => get_repos_with_backoff depth' last_id w'
      end
  end.

End Fetcher.

(** * Vocabulary of the statements *)

(** The lines that appending the dictionaries [rows], one [to_csv] each,
    adds to a file [f]. *)
Definition appended (f : list csv_line) (rows : list (gmap string value))
    : list csv_line :=
  (if decide (f = [] ∧ rows ≠ []) then [Header] else []) ++ (Row <$> rows).

(** A dictionary the loop accepts: its id is there and [int] takes it. *)
Definition int_id (d : gmap string value) : Prop :=
  ∃ z, dict_getitem d "id" ≫= py_int = Ok z.

(** A dictionary that a list of fetched repositories can put in the store:
    the projection of one of them, with an id that [int] takes. *)
Definition accepted (repos : PaginatedList) (d : gmap string value) : Prop :=
  ∃ repo, Yield repo ∈ repos ∧ project repo PROPERTIES ∅ = Ok d ∧ int_id d.

(** The remote reports that the rate limit is used up, at a step of the
    iteration: while the next page is requested, or while the repository
    just yielded is read. *)
Definition exhausted (item : fetched) (w : world) : Prop :=
  match item with
  | Broken e => e = RateLimitExceededException
  | Yield repo => (store_repo repo w).1 = Raise RateLimitExceededException
  end.

(** The row [save_repos_to_file] writes for a repository, when it writes
    one: the projection, if its id is there and [int] takes it. *)
Definition row_of (repo : Repository) : option (gmap string value) :=
  match project repo PROPERTIES ∅ with
  | Ok d =>
      match dict_getitem d "id" ≫= py_int with
      | Ok _ => Some d
      | Raise _ => None
      end
  | Raise _ => None
  end.

Arguments row_of : simpl never.

(** A repository that can be read without an exception: its name, and each
    attribute of [PROPERTIES] it has. *)
Definition quiet (repo : Repository) : Prop :=
  (∃ n, getattr repo "name" = Ok n)
  ∧ (∃ d, project repo PROPERTIES ∅ = Ok d).

(** * Sample inputs *)

Definition linux : Repository :=
  list_to_map
    [ ("name", Ok (VStr "linux")); ("id", Ok (VInt 5));
      ("language", Ok (VStr "C")); ("fork", Ok (VBool false)) ].

Definition a_fork : Repository :=
  list_to_map
    [ ("name", Ok (VStr "copy")); ("id", Ok (VInt 7));
      ("public", Ok (VBool true)); ("language", Ok (VStr "Python"));
      ("fork", Ok (VBool true)) ].

Definition blocked : Repository :=
  list_to_map
    [ ("name", Ok (VStr "taken-down")); ("id", Ok (VInt 8));
      ("language",
       Raise (GithubException
                (Some (DataDict [("message", "Repository access blocked")])))) ].

Definition a_fork_row : gmap string value :=
  list_to_map
    [ ("name", VStr "copy"); ("id", VInt 7); ("language", VStr "Python");
      ("fork", VBool true) ].

(** A repository whose id is one more than the greatest 64-bit number. *)
Definition huge : Repository :=
  list_to_map [ ("name", Ok (VStr "huge")); ("id", Ok (VInt (2 ^ 63))) ].

Definition huge_row : gmap string value :=
  list_to_map [ ("name", VStr "huge"); ("id", VInt (2 ^ 63)) ].

Definition no_id : Repository :=
  list_to_map [ ("name", Ok (VStr "draft")); ("language", Ok (VStr "C")) ].

Definition odd_id : Repository :=
  list_to_map [ ("name", Ok (VStr "odd")); ("id", Ok (VStr "12a")) ].

Definition ids_5_12_3 : list (gmap string value) :=
  [ {[ "id" := VInt 5 ]}; {[ "id" := VInt 12 ]}; {[ "id" := VInt 3 ]} ].

(** A remote that yields one repository and then reports the rate limit as
    used up until the time 1000. *)
Definition limited : Github :=
  {| get_repos := λ _ _,
       [Yield linux; Broken RateLimitExceededException; Yield a_fork];
     get_rate_limit := λ _, Ok 1000 |}.

Definition linux_row : gmap string value :=
  list_to_map
    [ ("name", VStr "linux"); ("id", VInt 5); ("language", VStr "C");
      ("fork", VBool false) ].

Definition nameless : Repository :=
  list_to_map [ ("id", Ok (VInt 3)) ].

(** A remote whose second page cannot be fetched. *)
Definition broken_page : Github :=
  {| get_repos := λ _ _,
       [Yield linux;
        Broken (GithubException (Some (DataDict [("message", "Server Error")])));
        Yield a_fork];
     get_rate_limit := λ _, Ok 1000 |}.

Definition nameless_page : Github :=
  {| get_repos := λ _ _, [Yield linux; Yield nameless; Yield a_fork];
     get_rate_limit := λ _, Ok 1000 |}.

Definition one_page : Github :=
  {| get_repos := λ _ _, [Yield linux];
     get_rate_limit := λ _, Ok 1000 |}.

(** A remote that never fails and has nothing to give. *)
Definition idle : Github :=
  {| get_repos := λ _ _, [];
     get_rate_limit := λ _, Ok 1000 |}.

(** A remote whose limit is used up after one repository, and stays so for
    the request of the reset time. *)
Definition no_quota : Github :=
  {| get_repos := λ _ _, [Yield linux; Broken RateLimitExceededException];
     get_rate_limit := λ _, Raise RateLimitExceededException |}.

(** A remote whose limit is used up from the first request on. *)
Definition starved : Github :=
  {| get_repos := λ _ _, [Broken RateLimitExceededException];
     get_rate_limit := λ _, Ok 1000 |}.

(** * Properties *)

(** ** The lines one run of the loop can add *)

Lemma appended_nil f : appended f [] = [].
Proof. unfold appended. rewrite decide_False; [done | by intros [_ ?]]. Qed.

Lemma appended_one f d :
  (if (tell f =? 0)%nat then [Header; Row d] else [Row d]) = appended f [d].
Proof.
  unfold appended, tell. destruct f as [|line f].
  - by rewrite decide_True.
  - rewrite decide_False; [done | by intros [? _]].
Qed.

Lemma appended_empty rows :
  rows ≠ [] → appended [] rows = Header :: (Row <$> rows).
Proof. intros Hrows. unfold appended. by rewrite decide_True. Qed.

Lemma appended_nonempty f rows : f ≠ [] → appended f rows = Row <$> rows.
Proof.
  intros Hf. unfold appended. rewrite decide_False; [done | by intros [? _]].
Qed.

Lemma appended_app f rows1 rows2 :
  appended f (rows1 ++ rows2) =
  appended f rows1 ++ appended (f ++ appended f rows1) rows2.
Proof.
  destruct rows1 as [|d rows1].
  - rewrite appended_nil, app_nil_r. done.
  - destruct f as [|line f].
    + rewrite !appended_empty by done.
      rewrite appended_nonempty by done.
      simpl. by rewrite fmap_app.
    + rewrite !appended_nonempty by done. by rewrite fmap_app.
Qed.

Lemma store_repo_cases repo w :
  (∃ d, project repo PROPERTIES ∅ = Ok d ∧ int_id d ∧
        store_repo repo w = to_csv d w)
  ∨ (∃ r, store_repo repo w = (r, w)).
Proof.
  unfold store_repo, mbind, M_bind, lift.
  destruct (project repo PROPERTIES ∅) as [d|e'];
    destruct (getattr repo "name") as [n|e]; cbv beta iota;
    try (right; by eauto).
  destruct (result_bind _ _ py_int (dict_getitem d "id")) as [z|e] eqn:Hid.
  - left. exists d. split; [done|]. split; [by exists z | done].
  - right. by exists (Ok tt).
Qed.

Lemma on_exception_world repo e w :
  ∃ r l, on_exception repo e w =
         (r, World (file w) (log w ++ l) (slept w) (invocations w)).
Proof.
  destruct w as [f lg sl i]; simpl.
  destruct e as [|[d|]| | | | | |]; simpl;
    try (eexists (Raise _), []; unfold raise; by rewrite app_nil_r).
  destruct (hasattr_message d).
  - unfold mbind, M_bind, lift.
    destruct (getattr repo "name") as [n|e].
    + by eexists (Ok tt), [_].
    + exists (Raise e), []. by rewrite app_nil_r.
  - exists (Ok tt), []. unfold mret, M_ret. by rewrite app_nil_r.
Qed.

Lemma handle_repo_cases repo w :
  (∃ d, project repo PROPERTIES ∅ = Ok d ∧ int_id d ∧
        handle_repo repo w = to_csv d w)
  ∨ (∃ r l, handle_repo repo w =
            (r, World (file w) (log w ++ l) (slept w) (invocations w))).
Proof.
  unfold handle_repo, try_except.
  destruct (store_repo_cases repo w) as [(d & Hd & Hid & ->)|[r ->]].
  - left. exists d. by repeat split.
  - right. destruct r as [[]|e].
    + exists (Ok tt), []. destruct w; simpl. by rewrite app_nil_r.
    + apply on_exception_world.
Qed.

Lemma save_repos_to_file_for_each repos w :
  save_repos_to_file repos w = for_each repos w.
Proof.
  unfold save_repos_to_file, try_except.
  destruct (for_each repos w) as [[[]|e] w']; [done|]. by destruct e.
Qed.

Lemma for_each_app pre post w :
  for_each (pre ++ post) w =
  match for_each pre w with
  | (Ok _, w1) => for_each post w1
  | (Raise e, w1) => (Raise e, w1)
  end.
Proof.
  revert w. induction pre as [|[repo|e] pre IH]; intros w; simpl.
  - done.
  - unfold mbind, M_bind.
    destruct (handle_repo repo w) as [[[]|e] w1]; [apply IH | done].
  - done.
Qed.

Lemma accepted_cons item repos d : accepted repos d → accepted (item :: repos) d.
Proof.
  intros (repo & Hin & Hd). exists repo. split; [by apply list_elem_of_further | done].
Qed.

Lemma for_each_appends repos w :
  ∃ rows l,
    (for_each repos w).2 =
      World (file w ++ appended (file w) rows) (log w ++ l) (slept w)
            (invocations w)
    ∧ Forall (accepted repos) rows.
Proof.
  revert w. induction repos as [|[repo|e] repos IH]; intros w; simpl.
  - exists [], []. rewrite appended_nil, !app_nil_r. by destruct w.
  - unfold mbind, M_bind.
    destruct (handle_repo_cases repo w) as [(d & Hd & Hid & ->)|(r & l & ->)].
    + unfold to_csv at 1. rewrite appended_one.
      match goal with |- context [for_each repos ?w1] =>
        destruct (IH w1) as (rows & l & -> & Hrows) end.
      simpl. exists (d :: rows), l. split.
      * rewrite <- app_assoc. by rewrite (appended_app _ [d] rows).
      * constructor.
        -- exists repo. split; [apply list_elem_of_here | done].
        -- eapply Forall_impl; [done | apply accepted_cons].
    + destruct r as [[]|e].
      * match goal with |- context [for_each repos ?w1] =>
          destruct (IH w1) as (rows & l' & -> & Hrows) end.
        simpl. exists rows, (l ++ l'). split.
        -- by rewrite app_assoc.
        -- eapply Forall_impl; [done | apply accepted_cons].
      * exists [], l. by rewrite appended_nil, app_nil_r.
  - exists [], []. unfold raise. simpl.
    rewrite appended_nil, !app_nil_r. by destruct w.
Qed.

Lemma save_repos_to_file_appends repos w :
  ∃ rows l,
    (save_repos_to_file repos w).2 =
      World (file w ++ appended (file w) rows) (log w ++ l) (slept w)
            (invocations w)
    ∧ Forall (accepted repos) rows.
Proof. rewrite save_repos_to_file_for_each. apply for_each_appends. Qed.

(** ** One invocation *)

Lemma back_off_unfold github gmtime n w :
  back_off github gmtime n w =
  match get_rate_limit github n with
  | Ok reset_timestamp => time_sleep (reset_timestamp - gmtime n + 5) w
  | Raise e => (Raise e, w)
  end.
Proof.
  unfold back_off, mbind, M_bind, lift.
  by destruct (get_rate_limit github n).
Qed.

Lemma cycle_unfold github gmtime to_Int64 since w :
  cycle github gmtime to_Int64 since w =
  let n := invocations w in
  match save_repos_to_file (get_repos github n since)
          (World (file w) (log w) (slept w) (S n)) with
  | (Ok _, w1) => read_last_id to_Int64 w1
  | (Raise RateLimitExceededException, w1) =>
      match back_off github gmtime n w1 with
      | (Ok _, w2) => read_last_id to_Int64 w2
      | (Raise e, w2) => (Raise e, w2)
      end
  | (Raise e, w1) => (Raise e, w1)
  end.
Proof.
  unfold cycle, mbind, M_bind, enter, try_except. cbv beta iota zeta.
  destruct (save_repos_to_file _ _) as [[[]|e] w1]; [done|].
  by destruct e.
Qed.

Lemma back_off_world github gmtime n w :
  ∃ s, (back_off github gmtime n w).2 =
       World (file w) (log w) (slept w ++ s) (invocations w).
Proof.
  rewrite back_off_unfold. destruct (get_rate_limit github n) as [reset|e].
  - unfold time_sleep. case_match.
    + exists []. rewrite app_nil_r. by destruct w.
    + by eexists [_].
  - exists []. rewrite app_nil_r. by destruct w.
Qed.

Lemma cycle_appends github gmtime to_Int64 since w :
  ∃ rows l s,
    (cycle github gmtime to_Int64 since w).2 =
      World (file w ++ appended (file w) rows) (log w ++ l) (slept w ++ s)
            (S (invocations w)).
Proof.
  rewrite cycle_unfold. cbv zeta.
  destruct (save_repos_to_file_appends
              (get_repos github (invocations w) since)
              (World (file w) (log w) (slept w) (S (invocations w))))
    as (rows & l & Hw1 & _).
  destruct (save_repos_to_file _ _) as [r w1]. simpl in Hw1. subst w1.
  exists rows, l.
  assert (Hsame : ∃ s : list Z,
    World (file w ++ appended (file w) rows) (log w ++ l) (slept w)
          (S (invocations w)) =
    World (file w ++ appended (file w) rows) (log w ++ l) (slept w ++ s)
          (S (invocations w))) by (exists []; by rewrite app_nil_r).
  destruct r as [[]|e]; [done|].
  destruct e; try done.
  match goal with |- context [back_off _ _ ?n ?w1] =>
    destruct (back_off_world github gmtime n w1) as [s Hw2];
    destruct (back_off github gmtime n w1) as [[[]|e] w2] end;
    simpl in Hw2; subst w2; by exists s.
Qed.

Lemma get_repos_with_backoff_appends github gmtime to_Int64 depth since w :
  ∃ rows l s k,
    (get_repos_with_backoff github gmtime to_Int64 depth since w).2 =
      World (file w ++ appended (file w) rows) (log w ++ l) (slept w ++ s)
            (invocations w + k).
Proof.
  revert since w. induction depth as [|depth IH]; intros since w; simpl.
  - exists [], [], [], 0%nat.
    rewrite appended_nil, !app_nil_r, Nat.add_0_r. by destruct w.
  - destruct (cycle_appends github gmtime to_Int64 since w)
      as (rows & l & s & Hw1).
    destruct (cycle github gmtime to_Int64 since w) as [[last_id|e] w1];
      simpl in Hw1; subst w1.
    + match goal with |- context [get_repos_with_backoff _ _ _ _ _ ?w1] =>
        destruct (IH last_id w1) as (rows' & l' & s' & k & ->) end.
      simpl. exists (rows ++ rows'), (l ++ l'), (s ++ s'), (S k).
      rewrite appended_app, !app_assoc. f_equal. lia.
    + exists rows, l, s, 1%nat. simpl. f_equal. lia.
Qed.

(** * The claims *)

(** ** What reaches the store *)

(** C1, as stated, fails: a public fork written in Python does not pass
    [is_repo_we_care_about], and [save_repos_to_file], which never calls
    the predicate, writes it to an empty store under the header. *)
Lemma fork_is_stored :
  is_repo_we_care_about a_fork = Ok (VBool false)
  ∧ save_repos_to_file [Yield a_fork] (World [] [] [] 0) =
      (Ok tt,
       World [ Header;
               Row (list_to_map
                      [ ("name", VStr "copy"); ("id", VInt 7);
                        ("language", VStr "Python");
                        ("fork", VBool true) ]) ]
             [] [] 0).
Proof. split; vm_compute; reflexivity. Qed.

(** C1, amended: for every sequence of fetched repositories, every record
    [save_repos_to_file] appends to the store is the projection of one of
    the repositories of the sequence and has an id that [int] accepts; and
    the predicate plays no part: a repository whose name can be read and
    whose projection has such an id is written, whatever
    [is_repo_we_care_about] says of it. *)
Theorem stored_records_are_projections (repos : PaginatedList) (w : world) :
  (∃ rows,
      file (save_repos_to_file repos w).2 = file w ++ appended (file w) rows
      ∧ Forall (λ d, ∃ repo, Yield repo ∈ repos
                      ∧ project repo PROPERTIES ∅ = Ok d
                      ∧ ∃ z, dict_getitem d "id" ≫= py_int = Ok z) rows)
  ∧ (∀ repo n d z,
        getattr repo "name" = Ok n →
        project repo PROPERTIES ∅ = Ok d →
        dict_getitem d "id" ≫= py_int = Ok z →
        handle_repo repo w = to_csv d w).
Proof.
  split.
  - destruct (save_repos_to_file_appends repos w) as (rows & l & -> & Hrows).
    by exists rows.
  - intros repo n d z Hname Hd Hid.
    unfold handle_repo, try_except, store_repo, mbind, M_bind, lift.
    rewrite Hname, Hd. cbv beta iota.
    fold (mbind (M:=result) py_int (dict_getitem d "id")). by rewrite Hid.
Qed.

Lemma stored_records_are_projections_witness :
  handle_repo a_fork (World [] [] [] 0) =
  to_csv (list_to_map
            [ ("name", VStr "copy"); ("id", VInt 7);
              ("language", VStr "Python"); ("fork", VBool true) ])
         (World [] [] [] 0).
Proof.
  apply (proj2 (stored_records_are_projections [] (World [] [] [] 0))
           a_fork (VStr "copy") _ 7); vm_compute; reflexivity.
Defined.

(** C4: whatever the number of invocations of [get_repos_with_backoff], the
    lines added to the store are rows, preceded by one header exactly when
    the file was empty before the first row was added; so the header is
    written at most once. *)
Theorem header_written_at_most_once
    (github : Github) (gmtime : nat → Z)
    (to_Int64 : string → option (option Z))
    (depth : nat) (since : cursor) (w : world) :
  ∃ rows,
    file (get_repos_with_backoff github gmtime to_Int64 depth since w).2 =
    file w ++ (if decide (file w = [] ∧ rows ≠ []) then [Header] else [])
           ++ (Row <$> rows).
Proof.
  destruct (get_repos_with_backoff_appends github gmtime to_Int64 depth since w)
    as (rows & l & s & k & ->).
  by exists rows.
Qed.

(** C9, as stated, fails on its last part: the loop does not run until it
    is ended from outside.  With a remote that never fails and has nothing
    new, and a stack that holds 1000 invocations, the routine ends by
    itself with [RecursionError], the store as it was. *)
Lemma loop_ends_with_RecursionError :
  get_repos_with_backoff idle (λ _, 0) (λ _, None) 1000 NotSet
    (World [Header; Row linux_row] [] [] 0) =
  (Raise RecursionError, World [Header; Row linux_row] [] [] 1000).
Proof. vm_compute. reflexivity. Qed.

(** C9, amended: [get_repos_with_backoff] never returns normally: whatever
    the room on the stack, its outcome is an exception.  An invocation
    fetches the page from its cursor and stores it, backs off when the rate
    limit is met, reads the cursor back from the store and calls itself
    with it; it ends only by an exception that nothing handles, which is
    [RecursionError] when the recursion limit is reached. *)
Theorem get_repos_with_backoff_never_returns
    (github : Github) (gmtime : nat → Z)
    (to_Int64 : string → option (option Z))
    (depth : nat) (since : cursor) (w : world) :
  (∃ e, (get_repos_with_backoff github gmtime to_Int64 depth since w).1
        = Raise e)
  ∧ get_repos_with_backoff github gmtime to_Int64 0 since w
    = (Raise RecursionError, w)
  ∧ get_repos_with_backoff github gmtime to_Int64 (S depth) since w =
    (let n := invocations w in
     let resume w1 :=
       match (df ← read_csv to_Int64 (file w1); get_max_id df) with
       | Ok last_id =>
           get_repos_with_backoff github gmtime to_Int64 depth last_id w1
       | Raise e => (Raise e, w1)
       end in
     match save_repos_to_file (get_repos github n since)
             (World (file w) (log w) (slept w) (S n)) with
     | (Ok _, w1) => resume w1
     | (Raise RateLimitExceededException, w1) =>
         match back_off github gmtime n w1 with
         | (Ok _, w2) => resume w2
         | (Raise e, w2) => (Raise e, w2)
         end
     | (Raise e, w1) => (Raise e, w1)
     end).
Proof.
  split; [|split; [done|]].
  - revert since w. induction depth as [|depth IH]; intros since w; simpl.
    + by exists RecursionError.
    + destruct (cycle github gmtime to_Int64 since w) as [[last_id|e] w'].
      * apply IH.
      * by exists e.
  - cbn [get_repos_with_backoff]. rewrite cycle_unfold. cbv zeta.
    unfold read_last_id.
    destruct (save_repos_to_file _ _) as [[[]|e] w1].
    + by destruct (df ← read_csv to_Int64 (file w1); get_max_id df).
    + destruct e; try done.
      destruct (back_off _ _ _ _) as [[[]|e] w2]; [|done].
      by destruct (df ← read_csv to_Int64 (file w2); get_max_id df).
Qed.

(** ** Errors met while a page is iterated *)

Lemma store_repo_raise repo w e :
  (store_repo repo w).1 = Raise e → store_repo repo w = (Raise e, w).
Proof.
  destruct (store_repo_cases repo w) as [(d & _ & _ & ->)|[r ->]].
  - discriminate.
  - simpl. by intros ->.
Qed.

(** C6: the error is not logged.  Reading the first repository raises a
    [GithubException] whose data is the dict of the response, with its
    message.  The repository is passed over and the next one is written,
    as the claim has it, but the log stays empty: the handler writes its
    line under [hasattr(e.data, 'message')], which is false for a dict. *)
Lemma api_error_is_not_logged :
  save_repos_to_file [Yield blocked; Yield a_fork] (World [] [] [] 0) =
  (Ok tt, World [Header; Row a_fork_row] [] [] 0).
Proof. vm_compute. reflexivity. Qed.

Lemma id_cells_not_rate_limit to_Int64 lines :
  id_cells to_Int64 lines ≠ Raise RateLimitExceededException.
Proof.
  induction lines as [|line lines IH]; simpl; [done|].
  assert (Hcell : id_cell to_Int64 line ≠ Raise RateLimitExceededException).
  { assert (Hint : ∀ cell, Int64 cell ≠ Raise RateLimitExceededException).
    { intros [z|]; [|done]. unfold Int64.
      by destruct ((- 2 ^ 63 <=? z) && (z <? 2 ^ 63)). }
    unfold id_cell. destruct line as [|d].
    - destruct (to_Int64 "id"); [apply Hint | done].
    - destruct (d !! "id") as [[]|]; try done; try apply Hint;
        (destruct (to_Int64 _); [apply Hint | done]). }
  unfold mbind, result_bind.
  destruct (id_cell to_Int64 line); [|congruence].
  destruct (id_cells to_Int64 lines); [done | exact IH].
Qed.

Lemma read_last_id_not_rate_limit to_Int64 w :
  (read_last_id to_Int64 w).1 ≠ Raise RateLimitExceededException.
Proof.
  unfold read_last_id, read_csv. simpl.
  destruct (file w) as [|[|d] lines]; try done.
  unfold mbind, result_bind.
  pose proof (id_cells_not_rate_limit to_Int64 lines) as Hcells.
  destruct (id_cells to_Int64 lines) as [cells|e]; [|congruence].
  unfold get_max_id. simpl. by destruct (Series_max cells).
Qed.

Lemma cycle_not_rate_limit github gmtime to_Int64 since w :
  (∀ n, get_rate_limit github n ≠ Raise RateLimitExceededException) →
  (cycle github gmtime to_Int64 since w).1 ≠ Raise RateLimitExceededException.
Proof.
  intros Hlimit. rewrite cycle_unfold. cbv zeta.
  destruct (save_repos_to_file _ _) as [[[]|e] w1].
  - apply read_last_id_not_rate_limit.
  - destruct e; try done.
    rewrite back_off_unfold.
    specialize (Hlimit (invocations w)).
    destruct (get_rate_limit github (invocations w)) as [reset|e].
    + unfold time_sleep.
      destruct (reset - gmtime (invocations w) + 5 <? 0); [done|].
      apply read_last_id_not_rate_limit.
    + simpl. congruence.
Qed.

Lemma get_repos_with_backoff_not_rate_limit
    github gmtime to_Int64 depth since w :
  (∀ n, get_rate_limit github n ≠ Raise RateLimitExceededException) →
  (get_repos_with_backoff github gmtime to_Int64 depth since w).1
  ≠ Raise RateLimitExceededException.
Proof.
  intros Hlimit. revert since w.
  induction depth as [|depth IH]; intros since w; simpl; [done|].
  pose proof (cycle_not_rate_limit github gmtime to_Int64 since w Hlimit)
    as Hcycle.
  destruct (cycle github gmtime to_Int64 since w) as [[last_id|e] w2].
  - apply IH.
  - simpl in Hcycle |- *. intros [= ->]. by apply Hcycle.
Qed.

(** C5, as stated, fails: the rate limit met on a page can end the loop.
    With a remote whose request for the reset time runs into the limit as
    well, the handler raises [RateLimitExceededException] itself and the
    caller gets it; with the clock past the reset by more than five
    seconds, the duration is negative and the caller gets the [ValueError]
    of [time.sleep]. *)
Lemma rate_limit_can_end_the_loop :
  get_repos_with_backoff no_quota (λ _, 990) (λ _, None) 1000 NotSet
    (World [] [] [] 0) =
  (Raise RateLimitExceededException, World [Header; Row linux_row] [] [] 1)
  ∧ get_repos_with_backoff limited (λ _, 2000) (λ _, None) 1000 NotSet
      (World [] [] [] 0) =
    (Raise ValueError, World [Header; Row linux_row] [] [] 1).
Proof. split; vm_compute; reflexivity. Qed.

(** C5, amended: when the rate limit is reported as used up at some step
    of the iteration, [save_repos_to_file] stops there, whatever the rest
    of the list, and raises the exception; [get_repos_with_backoff] catches
    it, asks for the reset time, sleeps until five seconds after it, reads
    the cursor back from the store and calls itself.  The loop goes on only
    if each of these steps succeeds: an exception of the request for the
    reset time, the [ValueError] of a negative duration and an exception of
    reading the store end the loop.  The rate limit itself reaches the
    caller only when the request for the reset time raises it. *)
Theorem rate_limit_backs_off
    (github : Github) (gmtime : nat → Z)
    (to_Int64 : string → option (option Z))
    (depth : nat) (since : cursor) (w w1 : world)
    (pre post : PaginatedList) (item : fetched)
    (Hpage : get_repos github (invocations w) since = pre ++ item :: post)
    (Hpre : for_each pre (World (file w) (log w) (slept w) (S (invocations w)))
            = (Ok tt, w1))
    (Hitem : exhausted item w1) :
  save_repos_to_file (pre ++ item :: post)
      (World (file w) (log w) (slept w) (S (invocations w)))
    = (Raise RateLimitExceededException, w1)
  ∧ get_repos_with_backoff github gmtime to_Int64 (S depth) since w =
    match get_rate_limit github (invocations w) with
    | Raise e => (Raise e, w1)
    | Ok reset =>
        let sleep_time := reset - gmtime (invocations w) + 5 in
        if sleep_time <? 0 then (Raise ValueError, w1)
        else
          let w2 := World (file w1) (log w1) (slept w1 ++ [sleep_time])
                          (invocations w1) in
          match (df ← read_csv to_Int64 (file w2); get_max_id df) with
          | Ok last_id =>
              get_repos_with_backoff github gmtime to_Int64 depth last_id w2
          | Raise e => (Raise e, w2)
          end
    end
  ∧ ((∀ n, get_rate_limit github n ≠ Raise RateLimitExceededException) →
     ∀ depth' since' w',
       (get_repos_with_backoff github gmtime to_Int64 depth' since' w').1
       ≠ Raise RateLimitExceededException).
Proof.
  assert (Hsave : save_repos_to_file (pre ++ item :: post)
      (World (file w) (log w) (slept w) (S (invocations w)))
    = (Raise RateLimitExceededException, w1)).
  { rewrite save_repos_to_file_for_each, for_each_app, Hpre.
    destruct item as [repo|e]; simpl in Hitem |- *.
    - unfold mbind, M_bind, handle_repo, try_except.
      by rewrite (store_repo_raise _ _ _ Hitem).
    - by subst e. }
  split; [done|]. split.
  - cbn [get_repos_with_backoff]. rewrite cycle_unfold. cbv zeta.
    rewrite Hpage, Hsave, back_off_unfold.
    destruct (get_rate_limit github (invocations w)) as [reset|e]; [|done].
    unfold time_sleep.
    destruct (reset - gmtime (invocations w) + 5 <? 0); [done|].
    unfold read_last_id. cbn [file].
    by destruct (df ← read_csv to_Int64 (file w1); get_max_id df).
  - intros Hlimit depth' since' w'.
    by apply get_repos_with_backoff_not_rate_limit.
Qed.

Lemma rate_limit_backs_off_witness :
  get_repos_with_backoff limited (λ _, 990) (λ _, None) 1 NotSet
    (World [] [] [] 0) =
  (Raise RecursionError, World [Header; Row linux_row] [] [15] 1).
Proof.
  pose proof (rate_limit_backs_off limited (λ _, 990) (λ _, None) 0 NotSet
                (World [] [] [] 0) (World [Header; Row linux_row] [] [] 1)
                [Yield linux] [Yield a_fork]
                (Broken RateLimitExceededException)) as H.
  destruct H as (_ & Hloop & _).
  - reflexivity.
  - vm_compute. reflexivity.
  - reflexivity.
  - rewrite Hloop. vm_compute. reflexivity.
Defined.

(** ** Identifiers *)

Lemma int_id_lookup d :
  int_id d ↔ ∃ v z, d !! "id" = Some v ∧ py_int v = Ok z.
Proof.
  unfold int_id, dict_getitem, mbind, result_bind. split.
  - intros [z Hz]. destruct (d !! "id") as [v|]; [|done]. by exists v, z.
  - intros (v & z & -> & Hz). by exists z.
Qed.

Lemma project_lookup repo props d0 d k v :
  project repo props d0 = Ok d →
  d !! k = Some v →
  (k ∈ props ∧ getattr repo k = Ok v) ∨ d0 !! k = Some v.
Proof.
  revert d0. induction props as [|prop props IH]; intros d0; simpl.
  - intros [= ->]. by right.
  - unfold project; fold project. unfold mbind, result_bind, hasattr.
    destruct (getattr repo prop) as [v'|e] eqn:Hprop.
    + intros Hd Hk. destruct (IH _ Hd Hk) as [[Hin Hget]|Hins].
      * left. split; [by apply list_elem_of_further | done].
      * destruct (decide (prop = k)) as [->|Hne].
        -- rewrite lookup_insert_eq in Hins. injection Hins as ->.
           left. split; [apply list_elem_of_here | done].
        -- rewrite lookup_insert_ne in Hins by done. by right.
    + destruct e; try done.
      intros Hd Hk. destruct (IH _ Hd Hk) as [[Hin Hget]|Hins].
      * left. split; [by apply list_elem_of_further | done].
      * by right.
Qed.

Lemma handle_repo_skips repo n d e w :
  getattr repo "name" = Ok n →
  project repo PROPERTIES ∅ = Ok d →
  dict_getitem d "id" ≫= py_int = Raise e →
  handle_repo repo w = (Ok tt, w).
Proof.
  intros Hname Hd Hid.
  unfold handle_repo, try_except, store_repo, mbind, M_bind, lift.
  rewrite Hname, Hd. cbv beta iota.
  fold (mbind (M:=result) py_int (dict_getitem d "id")). by rewrite Hid.
Qed.

(** C7: a record whose id [int] does not take is never appended (no run of
    [save_repos_to_file] adds it to the store), and the repository it comes
    from leaves no trace: the run with it and the run without it end with
    the same outcome and the same store, so the cursor read back from the
    store afterwards is the same. *)
Theorem unparsable_id_never_stored
    (to_Int64 : string → option (option Z))
    (repo : Repository) (n : value) (d : gmap string value) (e : exn)
    (pre post : PaginatedList) (w : world)
    (Hname : getattr repo "name" = Ok n)
    (Hd : project repo PROPERTIES ∅ = Ok d)
    (Hid : dict_getitem d "id" ≫= py_int = Raise e) :
  (∀ repos w', ∃ rows,
      file (save_repos_to_file repos w').2 = file w' ++ appended (file w') rows
      ∧ d ∉ rows)
  ∧ save_repos_to_file (pre ++ Yield repo :: post) w =
    save_repos_to_file (pre ++ post) w
  ∧ read_last_id to_Int64 (save_repos_to_file (pre ++ Yield repo :: post) w).2 =
    read_last_id to_Int64 (save_repos_to_file (pre ++ post) w).2.
Proof.
  assert (Hsame : save_repos_to_file (pre ++ Yield repo :: post) w =
                  save_repos_to_file (pre ++ post) w).
  { rewrite !save_repos_to_file_for_each, !for_each_app.
    destruct (for_each pre w) as [[[]|e'] w1]; [|done].
    simpl. unfold mbind, M_bind.
    by rewrite (handle_repo_skips repo n d e w1 Hname Hd Hid). }
  split; [|by rewrite Hsame].
  intros repos w'.
  destruct (save_repos_to_file_appends repos w') as (rows & l & -> & Hrows).
  exists rows. split; [done|].
  intros Hin. rewrite Forall_forall in Hrows.
  destruct (Hrows d Hin) as (_ & _ & _ & z & Hz). congruence.
Qed.

Lemma unparsable_id_never_stored_witness :
  save_repos_to_file [Yield linux; Yield odd_id; Yield a_fork]
                     (World [] [] [] 0) =
  save_repos_to_file [Yield linux; Yield a_fork] (World [] [] [] 0).
Proof.
  apply (unparsable_id_never_stored (λ _, None) odd_id (VStr "odd")
           (list_to_map [ ("name", VStr "odd"); ("id", VStr "12a") ])
           ValueError [Yield linux] [Yield a_fork] (World [] [] [] 0));
    vm_compute; reflexivity.
Defined.

(** C10: the projection holds only attributes the repository has, under
    names of [PROPERTIES]; a repository without an id attribute gives a
    dictionary without the key id and is passed over without an error and
    without a line written; and every record a run appends has an id, one
    that [int] takes. *)
Theorem projection_and_missing_id
    (repo : Repository) (n : value) (d : gmap string value) (w : world)
    (Hname : getattr repo "name" = Ok n)
    (Hd : project repo PROPERTIES ∅ = Ok d) :
  (∀ k v, d !! k = Some v → k ∈ PROPERTIES ∧ getattr repo k = Ok v)
  ∧ (repo !! "id" = None → d !! "id" = None ∧ handle_repo repo w = (Ok tt, w))
  ∧ (∀ repos w', ∃ rows,
       file (save_repos_to_file repos w').2 = file w' ++ appended (file w') rows
       ∧ Forall (λ d', ∃ v z, d' !! "id" = Some v ∧ py_int v = Ok z) rows).
Proof.
  assert (Hkeys : ∀ k v, d !! k = Some v →
                         k ∈ PROPERTIES ∧ getattr repo k = Ok v).
  { intros k v Hk. destruct (project_lookup _ _ _ _ _ _ Hd Hk) as [H|H].
    - done.
    - by rewrite lookup_empty in H. }
  split; [done|]. split.
  - intros Hnone.
    assert (Hdid : d !! "id" = None).
    { destruct (d !! "id") as [v|] eqn:Hv; [|done].
      destruct (Hkeys _ _ Hv) as [_ Hget].
      unfold getattr in Hget. by rewrite Hnone in Hget. }
    split; [done|].
    apply (handle_repo_skips repo n d KeyError w Hname Hd).
    unfold dict_getitem. by rewrite Hdid.
  - intros repos w'.
    destruct (save_repos_to_file_appends repos w') as (rows & l & -> & Hrows).
    exists rows. split; [done|].
    eapply Forall_impl; [exact Hrows|].
    intros d' (_ & _ & _ & Hint). by apply int_id_lookup.
Qed.

Lemma projection_and_missing_id_witness :
  handle_repo no_id (World [] [] [] 0) = (Ok tt, World [] [] [] 0).
Proof.
  apply (projection_and_missing_id no_id (VStr "draft")
           (list_to_map [ ("name", VStr "draft"); ("language", VStr "C") ])
           (World [] [] [] 0)); vm_compute; reflexivity.
Defined.

(** ** The cursor *)

Lemma Series_max_spec cells :
  match Series_max cells with
  | Some m => Some m ∈ cells ∧ ∀ z, Some z ∈ cells → z ≤ m
  | None => ∀ z, Some z ∉ cells
  end.
Proof.
  induction cells as [|[z|] cells IH]; simpl.
  - intros z Hz. by apply elem_of_nil in Hz.
  - destruct (Series_max cells) as [m|].
    + destruct IH as [Hin Hmax]. split.
      * destruct (Z.max_spec z m) as [[_ ->]|[_ ->]].
        -- by apply list_elem_of_further.
        -- apply list_elem_of_here.
      * intros z' Hz'. apply elem_of_cons in Hz' as [[= ->]|Hz'].
        -- lia.
        -- specialize (Hmax _ Hz'). lia.
    + split; [apply list_elem_of_here|].
      intros z' Hz'. apply elem_of_cons in Hz' as [[= ->]|Hz'].
      * lia.
      * by apply IH in Hz'.
  - destruct (Series_max cells) as [m|].
    + destruct IH as [Hin Hmax]. split; [by apply list_elem_of_further|].
      intros z Hz. apply elem_of_cons in Hz as [?|Hz]; [done | by apply Hmax].
    + intros z Hz. apply elem_of_cons in Hz as [?|Hz]; [done | by apply IH in Hz].
Qed.

Lemma id_cells_ints to_Int64 rows zs :
  Forall2 (λ (d : gmap string value) z, d !! "id" = Some (VInt z)) rows zs →
  Forall (λ z, - 2 ^ 63 ≤ z < 2 ^ 63) zs →
  id_cells to_Int64 (Row <$> rows) = Ok (Some <$> zs).
Proof.
  induction 1 as [|d z rows zs Hd _ IH]; intros Hrange; [done|].
  apply Forall_cons in Hrange as [[Hlow Hhigh] Hrange].
  rewrite !fmap_cons. cbn [id_cells].
  unfold id_cell, Int64. rewrite Hd.
  replace ((- 2 ^ 63 <=? z) && (z <? 2 ^ 63)) with true
    by (symmetry; apply andb_true_intro; split; lia).
  unfold mbind, result_bind. by rewrite (IH Hrange).
Qed.

(** C2, as stated, fails at startup: for a store file without a line the
    main block keeps [last_id = 0] and does not call [get_max_id]. *)
Lemma empty_file_starts_from_zero :
  main_last_id (λ _, None) [] = Ok (Since 0)
  ∧ main_last_id (λ _, None) [] ≠ Ok NotSet.
Proof. split; [reflexivity | discriminate]. Qed.

(** C2, amended: for a store file without a line, the cursor the main block
    starts from is 0, not unset and not an error; the store is read and
    [get_max_id] is consulted only for a file that is not empty, and the
    cursor is then whatever they give. *)
Theorem startup_cursor
    (to_Int64 : string → option (option Z)) (f : list csv_line) :
  (f = [] → main_last_id to_Int64 f = Ok (Since 0))
  ∧ (f ≠ [] →
     main_last_id to_Int64 f = (df ← read_csv to_Int64 f; get_max_id df)).
Proof.
  unfold main_last_id, tell. destruct f as [|line f]; split; done.
Qed.

Lemma startup_cursor_witness :
  main_last_id (λ _, None) [] = Ok (Since 0)
  ∧ main_last_id (λ _, None) [Header; Row linux_row] =
    (df ← read_csv (λ _, None) [Header; Row linux_row]; get_max_id df).
Proof.
  split.
  - by apply (startup_cursor (λ _, None) []).
  - by apply (startup_cursor (λ _, None) [Header; Row linux_row]).
Defined.

(** C8, as stated, fails for an id that does not fit 64 bits: [int] takes
    the id 2^63 and the row is written, but the store is read with the id
    column as [pd.Int64Dtype()], and reading it back raises. *)
Lemma id_beyond_Int64_is_not_read :
  save_repos_to_file [Yield huge] (World [] [] [] 0) =
    (Ok tt, World [Header; Row huge_row] [] [] 0)
  ∧ read_last_id (λ _, None) (World [Header; Row huge_row] [] [] 0) =
    (Raise TypeError, World [Header; Row huge_row] [] [] 0).
Proof. split; vm_compute; reflexivity. Qed.

(** C8, amended: for a store that holds its header and at least one
    record, all with integer ids that fit the 64-bit type the id column is
    read with, the cursor read back from the store, at startup as at the
    end of an invocation, is the greatest of the ids. *)
Theorem cursor_is_maximum_id
    (to_Int64 : string → option (option Z))
    (rows : list (gmap string value)) (zs : list Z) (w : world)
    (Hfile : file w = Header :: (Row <$> rows))
    (Hids : Forall2 (λ (d : gmap string value) z, d !! "id" = Some (VInt z))
                    rows zs)
    (Hrange : Forall (λ z, - 2 ^ 63 ≤ z < 2 ^ 63) zs)
    (Hne : zs ≠ []) :
  ∃ m, read_last_id to_Int64 w = (Ok (Since m), w)
       ∧ main_last_id to_Int64 (file w) = Ok (Since m)
       ∧ m ∈ zs ∧ ∀ z, z ∈ zs → z ≤ m.
Proof.
  pose proof (Series_max_spec (Some <$> zs)) as Hmax.
  assert (Hread : read_csv to_Int64 (file w) = Ok {| id_column := Some <$> zs |}).
  { rewrite Hfile. unfold read_csv.
    by rewrite (id_cells_ints _ _ _ Hids Hrange). }
  destruct (Series_max (Some <$> zs)) as [m|] eqn:Hm.
  - destruct Hmax as [Hin Hle]. exists m.
    assert (Hcursor : (df ← read_csv to_Int64 (file w); get_max_id df)
                      = Ok (Since m)).
    { rewrite Hread. unfold mbind at 1, result_bind at 1, get_max_id.
      cbn [id_column]. by rewrite Hm. }
    split; [|split; [|split]].
    + unfold read_last_id. by rewrite Hcursor.
    + unfold main_last_id. rewrite Hcursor. by rewrite Hfile.
    + apply list_elem_of_fmap in Hin as (z & [= ->] & Hz). done.
    + intros z Hz. apply Hle. by apply list_elem_of_fmap_2.
  - destruct zs as [|z zs]; [done|].
    exfalso. apply (Hmax z). apply list_elem_of_here.
Qed.

Lemma cursor_is_maximum_id_witness :
  read_last_id (λ _, None) (World (Header :: (Row <$> ids_5_12_3)) [] [] 0) =
  (Ok (Since 12), World (Header :: (Row <$> ids_5_12_3)) [] [] 0).
Proof.
  destruct (cursor_is_maximum_id (λ _, None) ids_5_12_3 [5; 12; 3]
              (World (Header :: (Row <$> ids_5_12_3)) [] [] 0))
    as (m & Hread & _ & Hin & Hle).
  - reflexivity.
  - repeat constructor.
  - repeat constructor; lia.
  - discriminate.
  - assert (m = 12) as ->; [|exact Hread].
    pose proof (Hle 12) as H12.
    assert (12 ≤ m)
      by (apply H12; apply list_elem_of_further, list_elem_of_here).
    repeat (apply elem_of_cons in Hin as [Hin|Hin]; [lia|]).
    by apply elem_of_nil in Hin.
Defined.

(** ** The pause *)

(** C3, as stated, fails for a negative duration: with the reset at 1000
    and the clock at 2000 the duration is -995, [time.sleep] raises
    [ValueError], and the invocation ends with it without a pause. *)
Lemma negative_sleep_raises :
  back_off limited (λ _, 2000) 0 (World [] [] [] 1) =
    (Raise ValueError, World [] [] [] 1)
  ∧ (cycle limited (λ _, 2000) (λ _, None) NotSet (World [] [] [] 0)).1 =
    Raise ValueError
  ∧ slept (cycle limited (λ _, 2000) (λ _, None) NotSet (World [] [] [] 0)).2
    = [].
Proof. repeat split; vm_compute; reflexivity. Qed.

(** C3, amended: when the rate limit is used up the duration of the pause
    is the reset time minus the current time plus 5 (so 15 for a reset ten
    seconds ahead); a duration that is positive or zero is slept, zero being
    a pause of no length, and no error comes of it; a negative duration
    makes [time.sleep] raise [ValueError], which the handler lets through. *)
Theorem back_off_sleep_time
    (github : Github) (gmtime : nat → Z) (n : nat) (reset : Z) (w : world)
    (Hreset : get_rate_limit github n = Ok reset) :
  (0 ≤ reset - gmtime n + 5 →
     back_off github gmtime n w =
     (Ok tt, World (file w) (log w) (slept w ++ [reset - gmtime n + 5])
                   (invocations w)))
  ∧ (reset - gmtime n + 5 < 0 →
       back_off github gmtime n w = (Raise ValueError, w))
  ∧ (gmtime n = reset - 10 → reset - gmtime n + 5 = 15).
Proof.
  rewrite back_off_unfold, Hreset. unfold time_sleep.
  destruct (Z.ltb_spec (reset - gmtime n + 5) 0); repeat split; intros; try lia;
    done.
Qed.

Lemma back_off_sleep_time_witness :
  back_off limited (λ _, 990) 0 (World [] [] [] 1) =
  (Ok tt, World [] [] [15] 1).
Proof.
  apply (back_off_sleep_time limited (λ _, 990) 0 1000 (World [] [] [] 1)).
  - reflexivity.
  - simpl. lia.
Defined.

(** * Further properties of the script *)

(** ** The predicate *)

(** X1: [is_repo_we_care_about] answers a true value exactly for a
    repository whose [public] is true, whose language is the string C and
    whose [fork] is false, the three attributes being readable. *)
Theorem is_repo_we_care_about_true (repo : Repository) :
  (∃ v, is_repo_we_care_about repo = Ok v ∧ truthy v = true)
  ↔ (∃ p f, getattr repo "public" = Ok p ∧ truthy p = true
            ∧ getattr repo "language" = Ok (VStr "C")
            ∧ getattr repo "fork" = Ok f ∧ truthy f = false).
Proof.
  unfold is_repo_we_care_about, mbind, result_bind. split.
  - intros (v & Hv & Htrue).
    destruct (getattr repo "public") as [p|]; [|done].
    destruct (truthy p) eqn:Hp; [|by injection Hv as <-; congruence].
    destruct (getattr repo "language") as [l|]; [|done].
    case_bool_decide as Hl; [|by injection Hv as <-].
    destruct (getattr repo "fork") as [f|]; [|done].
    injection Hv as <-. simpl in Htrue. apply negb_true_iff in Htrue.
    exists p, f. by subst l.
  - intros (p & f & -> & -> & -> & -> & Hf).
    rewrite bool_decide_eq_true_2 by done.
    exists (VBool (negb (truthy f))). by rewrite Hf.
Qed.

(** X2: [is_repo_we_care_about] raises exactly the exception of the first
    attribute it reads that cannot be read: [public]; then [language], read
    only when [public] is true; then [fork], read only when the language is
    C.  A repository without an attribute [public] gives [AttributeError]. *)
Theorem is_repo_we_care_about_raises (repo : Repository) (e : exn) :
  is_repo_we_care_about repo = Raise e
  ↔ getattr repo "public" = Raise e
    ∨ (∃ p, getattr repo "public" = Ok p ∧ truthy p = true
            ∧ (getattr repo "language" = Raise e
               ∨ (getattr repo "language" = Ok (VStr "C")
                  ∧ getattr repo "fork" = Raise e))).
Proof.
  unfold is_repo_we_care_about, mbind, result_bind. split.
  - intros He.
    destruct (getattr repo "public") as [p|e']; [|left; congruence].
    right. exists p. split; [done|].
    destruct (truthy p); [|done]. split; [done|].
    destruct (getattr repo "language") as [l|e']; [|left; congruence].
    case_bool_decide as Hl; [|done]. subst l. right. split; [done|].
    destruct (getattr repo "fork") as [f|e']; [done | congruence].
  - intros [->|(p & -> & -> & [->|[-> ->]])]; [done | done |].
    by rewrite bool_decide_eq_true_2.
Qed.

(** ** The projection *)

Lemma project_exact repo props d0 :
  (∀ prop, prop ∈ props → ∃ b, hasattr repo prop = Ok b) →
  ∃ d, project repo props d0 = Ok d
       ∧ ∀ k v, d !! k = Some v ↔
                (k ∈ props ∧ getattr repo k = Ok v)
                ∨ (¬ (k ∈ props ∧ ∃ v', getattr repo k = Ok v')
                   ∧ d0 !! k = Some v).
Proof.
  revert d0. induction props as [|prop props IH]; intros d0 Hprops.
  - exists d0. split; [done|]. intros k v. split.
    + intros Hk. right. split; [|done]. intros [Hin _].
      by apply elem_of_nil in Hin.
    + intros [[Hin _]|[_ Hk]]; [by apply elem_of_nil in Hin | done].
  - unfold project; fold project.
    destruct (Hprops prop (list_elem_of_here _ _)) as [b Hb].
    assert (Hrest : ∀ q, q ∈ props → ∃ b, hasattr repo q = Ok b)
      by (intros q Hq; apply Hprops; by apply list_elem_of_further).
    rewrite Hb. unfold mbind at 1, result_bind at 1.
    unfold hasattr in Hb. destruct b.
    + destruct (getattr repo prop) as [v'|e] eqn:Hget; [|by destruct e].
      unfold mbind at 1, result_bind at 1.
      destruct (IH (<[prop := v']> d0) Hrest) as (d & -> & Hd).
      exists d. split; [done|]. intros k v. rewrite Hd, elem_of_cons.
      destruct (decide (k = prop)) as [->|Hne].
      * rewrite lookup_insert_eq. split.
        -- intros [[_ Hk]|[_ [= <-]]]; left; split; auto.
        -- intros [[_ Hk]|[Hno _]].
           ++ destruct (decide (prop ∈ props)); [by left|].
              right. split; [by intros [? _]|]. congruence.
           ++ exfalso. apply Hno. split; [by left | by exists v'].
      * rewrite lookup_insert_ne by done. split.
        -- intros [[Hin Hk]|[Hno Hk]]; [left; split; auto|].
           right. split; [|done]. intros [[?|Hin] Hsome]; [done|].
           apply Hno. by split.
        -- intros [[[?|Hin] Hk]|[Hno Hk]]; [done | by left |].
           right. split; [|done]. intros [Hin Hsome]. apply Hno.
           split; [by right | done].
    + destruct (getattr repo prop) as [v'|e] eqn:Hget; [done|].
      destruct (IH d0 Hrest) as (d & -> & Hd).
      exists d. split; [done|]. intros k v. rewrite Hd, elem_of_cons. split.
      * intros [[Hin Hk]|[Hno Hk]]; [left; split; auto|].
        right. split; [|done]. intros [[->|Hin] [v'' Hsome]]; [congruence|].
        apply Hno. split; [done | by exists v''].
      * intros [[[->|Hin] Hk]|[Hno Hk]]; [congruence | by left |].
        right. split; [|done]. intros [Hin Hsome]. apply Hno.
        split; [by right | done].
Qed.

Lemma project_first_error repo pre prop post d0 e :
  (∀ q, q ∈ pre → ∃ b, hasattr repo q = Ok b) →
  hasattr repo prop = Raise e →
  project repo (pre ++ prop :: post) d0 = Raise e.
Proof.
  revert d0. induction pre as [|q pre IH]; intros d0 Hpre Hprop.
  - simpl. unfold project; fold project. by rewrite Hprop.
  - rewrite <- app_comm_cons. unfold project; fold project.
    destruct (Hpre q (list_elem_of_here _ _)) as [b Hb].
    assert (Hrest : ∀ q', q' ∈ pre → ∃ b, hasattr repo q' = Ok b)
      by (intros q' Hq'; apply Hpre; by apply list_elem_of_further).
    rewrite Hb. unfold mbind at 1, result_bind at 1. destruct b.
    + unfold hasattr in Hb.
      destruct (getattr repo q) as [v|e']; [|by destruct e'].
      unfold mbind at 1, result_bind at 1. by apply IH.
    + by apply IH.
Qed.

(** X3: when no attribute of [PROPERTIES] raises anything but
    [AttributeError], the projection succeeds and holds exactly the
    attributes of [PROPERTIES] that the repository has, each with its
    value. *)
Theorem project_holds_the_attributes (repo : Repository)
    (Hquiet : ∀ prop, prop ∈ PROPERTIES → ∃ b, hasattr repo prop = Ok b) :
  ∃ d, project repo PROPERTIES ∅ = Ok d
       ∧ ∀ k v, d !! k = Some v ↔ k ∈ PROPERTIES ∧ getattr repo k = Ok v.
Proof.
  destruct (project_exact repo PROPERTIES ∅ Hquiet) as (d & Hd & Hkeys).
  exists d. split; [done|]. intros k v. rewrite Hkeys. split.
  - intros [?|[_ Hk]]; [done | by rewrite lookup_empty in Hk].
  - intros ?. by left.
Qed.

(** X4: the projection stops at the first attribute, in the order of
    [PROPERTIES], whose reading raises something other than
    [AttributeError], and raises that exception. *)
Theorem project_raises_first_error
    (repo : Repository) (pre post : list string) (prop : string) (e : exn)
    (Hsplit : PROPERTIES = pre ++ prop :: post)
    (Hpre : ∀ q, q ∈ pre → ∃ b, hasattr repo q = Ok b)
    (Hprop : hasattr repo prop = Raise e) :
  project repo PROPERTIES ∅ = Raise e.
Proof. rewrite Hsplit. by apply project_first_error. Qed.

Lemma project_holds_the_attributes_witness :
  ∃ d, project linux PROPERTIES ∅ = Ok d
       ∧ ∀ k v, d !! k = Some v ↔ k ∈ PROPERTIES ∧ getattr linux k = Ok v.
Proof.
  apply (project_holds_the_attributes linux).
  intros prop Hprop. unfold PROPERTIES in Hprop.
  repeat (apply elem_of_cons in Hprop as [->|Hprop];
          [eexists; vm_compute; reflexivity|]).
  by apply elem_of_nil in Hprop.
Defined.

Lemma project_raises_first_error_witness :
  project blocked PROPERTIES ∅ =
  Raise (GithubException
           (Some (DataDict [("message", "Repository access blocked")]))).
Proof.
  apply (project_raises_first_error blocked
           (take 47 PROPERTIES) (drop 48 PROPERTIES) "language").
  - vm_compute. reflexivity.
  - intros q Hq. cbv [take PROPERTIES] in Hq.
    repeat (apply elem_of_cons in Hq as [->|Hq];
            [eexists; vm_compute; reflexivity|]).
    by apply elem_of_nil in Hq.
  - vm_compute. reflexivity.
Defined.

(** ** What a page leaves in the store and in the log *)

Lemma handle_repo_stores repo n d z w :
  getattr repo "name" = Ok n →
  project repo PROPERTIES ∅ = Ok d →
  dict_getitem d "id" ≫= py_int = Ok z →
  handle_repo repo w = to_csv d w.
Proof.
  intros Hname Hd Hid.
  unfold handle_repo, try_except, store_repo, mbind, M_bind, lift.
  rewrite Hname, Hd. cbv beta iota.
  fold (mbind (M:=result) py_int (dict_getitem d "id")). by rewrite Hid.
Qed.

Lemma handle_repo_quiet repo w :
  quiet repo →
  handle_repo repo w =
  (Ok tt,
   World (file w ++ appended (file w) (omap row_of [repo])) (log w) (slept w)
         (invocations w)).
Proof.
  intros [[n Hname] [d Hd]].
  assert (Hw : w = World (file w ++ []) (log w) (slept w) (invocations w))
    by (rewrite app_nil_r; by destruct w).
  simpl. unfold row_of. rewrite Hd.
  destruct (dict_getitem d "id" ≫= py_int) as [z|e] eqn:Hid.
  - rewrite (handle_repo_stores repo n d z w Hname Hd Hid).
    unfold to_csv. by rewrite appended_one.
  - rewrite (handle_repo_skips repo n d e w Hname Hd Hid).
    simpl. rewrite appended_nil. by rewrite <- Hw.
Qed.

Lemma for_each_quiet repos w :
  Forall quiet repos →
  for_each (Yield <$> repos) w =
  (Ok tt,
   World (file w ++ appended (file w) (omap row_of repos)) (log w) (slept w)
         (invocations w)).
Proof.
  intros Hquiet. revert w. induction Hquiet as [|repo repos Hrepo _ IH];
    intros w.
  - simpl. rewrite appended_nil, app_nil_r. by destruct w.
  - rewrite fmap_cons. cbn [for_each]. unfold mbind, M_bind.
    rewrite (handle_repo_quiet repo w Hrepo), IH.
    cbn [file log slept invocations].
    change (repo :: repos) with ([repo] ++ repos).
    by rewrite omap_app, appended_app, app_assoc.
Qed.

(** X5: on a page whose repositories can all be read without an exception,
    [save_repos_to_file] returns normally, logs nothing, and adds to the
    store the rows of the repositories whose id [int] takes, every one of
    them, in the order of the page. *)
Theorem quiet_page_is_stored_in_order
    (repos : list Repository) (w : world) (Hquiet : Forall quiet repos) :
  save_repos_to_file (Yield <$> repos) w =
  (Ok tt,
   World (file w ++ appended (file w) (omap row_of repos)) (log w) (slept w)
         (invocations w)).
Proof. rewrite save_repos_to_file_for_each. by apply for_each_quiet. Qed.

Lemma quiet_page_is_stored_in_order_witness :
  save_repos_to_file (Yield <$> [linux; odd_id; a_fork]) (World [] [] [] 0) =
  (Ok tt,
   World ([] ++ appended [] (omap row_of [linux; odd_id; a_fork])) [] [] 0).
Proof.
  apply (quiet_page_is_stored_in_order [linux; odd_id; a_fork]
           (World [] [] [] 0)).
  repeat constructor; eexists; vm_compute; reflexivity.
Defined.

(** X6: when reading a repository raises a [GithubException] with a data
    attribute and the name of the repository can be read, the handler adds
    one line to the log, made of the name and of the message of the data,
    if the data has an attribute [message], and no line otherwise; so for
    the dict PyGithub attaches nothing is logged. *)
Theorem api_error_log_line
    (repo : Repository) (d : edata) (n : value) (w : world)
    (Herr : (store_repo repo w).1 = Raise (GithubException (Some d)))
    (Hname : getattr repo "name" = Ok n) :
  handle_repo repo w =
  (Ok tt,
   World (file w)
         (log w ++
            if hasattr_message d
            then ["[+] " +:+ py_str n +:+ ": " +:+ data_get_message d
                  +:+ " skipping."]
            else [])
         (slept w) (invocations w)).
Proof.
  apply store_repo_raise in Herr.
  unfold handle_repo, try_except. rewrite Herr. simpl.
  destruct (hasattr_message d).
  - unfold mbind, M_bind, lift. by rewrite Hname.
  - unfold mret, M_ret. rewrite app_nil_r. by destruct w.
Qed.

Lemma api_error_log_line_witness :
  handle_repo blocked (World [] [] [] 0) = (Ok tt, World [] ([] ++ []) [] 0).
Proof.
  apply (api_error_log_line blocked
           (DataDict [("message", "Repository access blocked")])
           (VStr "taken-down") (World [] [] [] 0));
    vm_compute; reflexivity.
Defined.

(** ** Exceptions that end the loop *)

Lemma cycle_save_raises github gmtime to_Int64 since w e w1 :
  save_repos_to_file (get_repos github (invocations w) since)
    (World (file w) (log w) (slept w) (S (invocations w))) = (Raise e, w1) →
  e ≠ RateLimitExceededException →
  cycle github gmtime to_Int64 since w = (Raise e, w1).
Proof.
  intros Hsave Hne. rewrite cycle_unfold. cbv zeta. rewrite Hsave.
  by destruct e.
Qed.

(** X7: an exception other than the rate limit that is raised while the
    next page is requested is caught nowhere: the rows written before it
    stay in the store, the rest of the list is not looked at, and
    [get_repos_with_backoff] ends with that exception. *)
Theorem page_error_ends_the_loop
    (github : Github) (gmtime : nat → Z)
    (to_Int64 : string → option (option Z))
    (depth : nat) (since : cursor) (w w1 : world)
    (pre post : PaginatedList) (e : exn)
    (Hpage : get_repos github (invocations w) since = pre ++ Broken e :: post)
    (Hpre : for_each pre (World (file w) (log w) (slept w) (S (invocations w)))
            = (Ok tt, w1))
    (Hne : e ≠ RateLimitExceededException) :
  get_repos_with_backoff github gmtime to_Int64 (S depth) since w =
  (Raise e, w1).
Proof.
  cbn [get_repos_with_backoff].
  rewrite (cycle_save_raises github gmtime to_Int64 since w e w1); [done| |done].
  by rewrite Hpage, save_repos_to_file_for_each, for_each_app, Hpre.
Qed.

(** X8: a repository without an attribute [name] ends the loop with
    [AttributeError]: the exception of the first statement of the turn is
    taken by neither handler; nothing is written or logged for the
    repository, and the rows written before it stay in the store. *)
Theorem missing_name_ends_the_loop
    (github : Github) (gmtime : nat → Z)
    (to_Int64 : string → option (option Z))
    (depth : nat) (since : cursor) (w w1 : world)
    (pre post : PaginatedList) (repo : Repository)
    (Hpage : get_repos github (invocations w) since = pre ++ Yield repo :: post)
    (Hpre : for_each pre (World (file w) (log w) (slept w) (S (invocations w)))
            = (Ok tt, w1))
    (Hname : repo !! "name" = None) :
  get_repos_with_backoff github gmtime to_Int64 (S depth) since w =
  (Raise AttributeError, w1).
Proof.
  cbn [get_repos_with_backoff].
  rewrite (cycle_save_raises github gmtime to_Int64 since w AttributeError w1);
    [done| |done].
  rewrite Hpage, save_repos_to_file_for_each, for_each_app, Hpre.
  cbn [for_each]. unfold mbind, M_bind, handle_repo, try_except, store_repo,
    lift, getattr.
  by rewrite Hname.
Qed.

(** X9: the store is read back outside the [try]: when the page has been
    written and [read_csv] cannot read the store, the invocation raises the
    exception of [read_csv] and the loop ends with it, the rows of the page
    being in the store. *)
Theorem unreadable_store_ends_the_loop
    (github : Github) (gmtime : nat → Z)
    (to_Int64 : string → option (option Z))
    (depth : nat) (since : cursor) (w w1 : world) (e : exn)
    (Hsave : save_repos_to_file (get_repos github (invocations w) since)
               (World (file w) (log w) (slept w) (S (invocations w)))
             = (Ok tt, w1))
    (Hread : read_csv to_Int64 (file w1) = Raise e) :
  get_repos_with_backoff github gmtime to_Int64 (S depth) since w =
  (Raise e, w1).
Proof.
  cbn [get_repos_with_backoff]. rewrite cycle_unfold. cbv zeta.
  rewrite Hsave. unfold read_last_id. by rewrite Hread.
Qed.

(** X10: on a store file without a line, an invocation whose first request
    runs into the rate limit sleeps (the duration being positive or zero)
    and then fails: there is no column to read in the file, and the loop
    ends with [EmptyDataError]. *)
Theorem rate_limit_on_empty_store
    (github : Github) (gmtime : nat → Z)
    (to_Int64 : string → option (option Z))
    (depth : nat) (since : cursor) (w : world)
    (post : PaginatedList) (reset : Z)
    (Hfile : file w = [])
    (Hpage : get_repos github (invocations w) since =
             Broken RateLimitExceededException :: post)
    (Hreset : get_rate_limit github (invocations w) = Ok reset)
    (Hpos : 0 ≤ reset - gmtime (invocations w) + 5) :
  get_repos_with_backoff github gmtime to_Int64 (S depth) since w =
  (Raise EmptyDataError,
   World [] (log w) (slept w ++ [reset - gmtime (invocations w) + 5])
         (S (invocations w))).
Proof.
  cbn [get_repos_with_backoff]. rewrite cycle_unfold. cbv zeta.
  rewrite Hpage, save_repos_to_file_for_each. cbn [for_each]. unfold raise.
  rewrite back_off_unfold, Hreset. unfold time_sleep.
  destruct (Z.ltb_spec (reset - gmtime (invocations w) + 5) 0); [lia|].
  unfold read_last_id. cbn [file log slept invocations]. by rewrite Hfile.
Qed.

Lemma page_error_ends_the_loop_witness :
  get_repos_with_backoff broken_page (λ _, 0) (λ _, None) 1 NotSet
    (World [] [] [] 0) =
  (Raise (GithubException (Some (DataDict [("message", "Server Error")]))),
   World [Header; Row linux_row] [] [] 1).
Proof.
  apply (page_error_ends_the_loop broken_page (λ _, 0) (λ _, None) 0 NotSet
           (World [] [] [] 0) (World [Header; Row linux_row] [] [] 1)
           [Yield linux] [Yield a_fork]).
  - reflexivity.
  - vm_compute. reflexivity.
  - discriminate.
Defined.

Lemma missing_name_ends_the_loop_witness :
  get_repos_with_backoff nameless_page (λ _, 0) (λ _, None) 1 NotSet
    (World [] [] [] 0) =
  (Raise AttributeError, World [Header; Row linux_row] [] [] 1).
Proof.
  apply (missing_name_ends_the_loop nameless_page (λ _, 0) (λ _, None) 0
           NotSet (World [] [] [] 0) (World [Header; Row linux_row] [] [] 1)
           [Yield linux] [Yield a_fork] nameless).
  - reflexivity.
  - vm_compute. reflexivity.
  - vm_compute. reflexivity.
Defined.

Lemma unreadable_store_ends_the_loop_witness :
  get_repos_with_backoff one_page (λ _, 0) (λ _, None) 1 NotSet
    (World [Row {[ "id" := VInt 4 ]}] [] [] 0) =
  (Raise ValueError,
   World [Row {[ "id" := VInt 4 ]}; Row linux_row] [] [] 1).
Proof.
  apply (unreadable_store_ends_the_loop one_page (λ _, 0) (λ _, None) 0
           NotSet (World [Row {[ "id" := VInt 4 ]}] [] [] 0)
           (World [Row {[ "id" := VInt 4 ]}; Row linux_row] [] [] 1)).
  - vm_compute. reflexivity.
  - reflexivity.
Defined.

Lemma rate_limit_on_empty_store_witness :
  get_repos_with_backoff starved (λ _, 990) (λ _, None) 1 NotSet
    (World [] [] [] 0) =
  (Raise EmptyDataError, World [] [] [15] 1).
Proof.
  apply (rate_limit_on_empty_store starved (λ _, 990) (λ _, None) 0 NotSet
           (World [] [] [] 0) [] 1000).
  - reflexivity.
  - reflexivity.
  - reflexivity.
  - simpl. lia.
Defined.

(** ** Pauses *)

Lemma cycle_slept github gmtime to_Int64 since w :
  ∃ s, slept (cycle github gmtime to_Int64 since w).2 = slept w ++ s
       ∧ invocations (cycle github gmtime to_Int64 since w).2
         = S (invocations w)
       ∧ (length s ≤ 1)%nat
       ∧ Forall (λ t, 0 ≤ t) s.
Proof.
  rewrite cycle_unfold. cbv zeta.
  destruct (save_repos_to_file_appends
              (get_repos github (invocations w) since)
              (World (file w) (log w) (slept w) (S (invocations w))))
    as (rows & l & Hw1 & _).
  destruct (save_repos_to_file _ _) as [r w1]. simpl in Hw1. subst w1.
  assert (Hnone : ∃ s : list Z, slept w = slept w ++ s
            ∧ S (invocations w) = S (invocations w)
            ∧ (length s ≤ 1)%nat ∧ Forall (λ t, 0 ≤ t) s).
  { exists []. rewrite app_nil_r. repeat split; [simpl; lia | constructor]. }
  destruct r as [[]|e]; [exact Hnone|].
  destruct e; try exact Hnone.
  rewrite back_off_unfold.
  destruct (get_rate_limit github (invocations w)) as [reset|e];
    [|exact Hnone].
  unfold time_sleep.
  destruct (Z.ltb_spec (reset - gmtime (invocations w) + 5) 0);
    [exact Hnone|].
  simpl. eexists [_]. repeat split; [simpl; lia|]. by constructor.
Qed.

(** X11: the pauses of the loop: each invocation sleeps at most once, so
    the pauses taken are no more than the invocations made, and every pause
    that was taken has a duration that is positive or zero. *)
Theorem pauses_of_the_loop
    (github : Github) (gmtime : nat → Z)
    (to_Int64 : string → option (option Z))
    (depth : nat) (since : cursor) (w : world) :
  ∃ s k,
    slept (get_repos_with_backoff github gmtime to_Int64 depth since w).2
      = slept w ++ s
    ∧ invocations (get_repos_with_backoff github gmtime to_Int64 depth since w).2
      = (invocations w + k)%nat
    ∧ (length s ≤ k ≤ depth)%nat
    ∧ Forall (λ t, 0 ≤ t) s.
Proof.
  revert since w. induction depth as [|depth IH]; intros since w.
  - exists [], 0%nat. simpl. rewrite app_nil_r, Nat.add_0_r.
    repeat split; [lia | lia | constructor].
  - cbn [get_repos_with_backoff].
    destruct (cycle_slept github gmtime to_Int64 since w)
      as (s & Hs & Hk & Hlen & Hpos).
    destruct (cycle github gmtime to_Int64 since w) as [[last_id|e] w1];
      simpl in Hs, Hk.
    + destruct (IH last_id w1) as (s' & k & Hs' & Hk' & Hlen' & Hpos').
      exists (s ++ s'), (S k). rewrite Hs', Hk', Hs, Hk, length_app.
      repeat split; [by rewrite app_assoc | lia | lia | lia |].
      by apply Forall_app.
    + exists s, 1%nat. simpl. rewrite Hs, Hk.
      repeat split; [lia | lia | lia | done].
Qed.

(** ** The cursor and the rows added to the store *)

Lemma Series_max_app cells more :
  Series_max (cells ++ more) =
  match Series_max cells, Series_max more with
  | Some a, Some b => Some (Z.max a b)
  | Some a, None => Some a
  | None, b => b
  end.
Proof.
  induction cells as [|[z|] cells IH]; simpl.
  - by destruct (Series_max more).
  - rewrite IH.
    destruct (Series_max cells) as [a|], (Series_max more) as [b|];
      try done.
    by rewrite Z.max_assoc.
  - exact IH.
Qed.

(** X12: cells added at the end of the id column never lower the cursor:
    if [get_max_id] gave an id before, it gives afterwards an id at least
    as large, which is the former one or an id among the added cells. *)
Theorem get_max_id_grows
    (cells more : list (option Z)) (m : Z)
    (Hbefore : get_max_id {| id_column := cells |} = Ok (Since m)) :
  ∃ m', get_max_id {| id_column := cells ++ more |} = Ok (Since m')
        ∧ m ≤ m' ∧ (m' = m ∨ Some m' ∈ more).
Proof.
  unfold get_max_id in *. simpl in *. rewrite Series_max_app.
  destruct (Series_max cells) as [a|]; simpl in Hbefore; [|done].
  injection Hbefore as ->.
  pose proof (Series_max_spec more) as Hmore.
  destruct (Series_max more) as [b|]; simpl.
  - exists (Z.max m b). split; [done|]. split; [lia|].
    destruct Hmore as [Hin _].
    destruct (Z.max_spec m b) as [[_ ->]|[_ ->]]; [by right | by left].
  - exists m. split; [done|]. split; [lia | by left].
Qed.

Lemma get_max_id_grows_witness :
  ∃ m', get_max_id {| id_column := [Some 5; None; Some 12] ++ [Some 3; Some 20] |}
        = Ok (Since m')
        ∧ 12 ≤ m' ∧ (m' = 12 ∨ Some m' ∈ [Some 3; Some 20]).
Proof.
  apply (get_max_id_grows [Some 5; None; Some 12] [Some 3; Some 20] 12).
  reflexivity.
Defined.

(** ** A store without an id *)

(** X14: when the id column holds no value, [get_max_id] does not return
    [NotSet]: the maximum of the column is missing, [np.isnan] gives
    nothing an [if] can test, and the [TypeError] that comes of it is not
    taken by the handler, which names [ValueError].  So a store that holds
    its header and no record cannot be resumed from, at startup or at the
    end of an invocation. *)
Theorem missing_maximum_raises
    (to_Int64 : string → option (option Z)) (df : DataFrame)
    (Hnone : ∀ z, Some z ∉ id_column df) :
  get_max_id df = Raise TypeError
  ∧ main_last_id to_Int64 [Header] = Raise TypeError
  ∧ (∀ w, file w = [Header] →
          read_last_id to_Int64 w = (Raise TypeError, w)).
Proof.
  split; [|split; [done|]].
  - unfold get_max_id.
    pose proof (Series_max_spec (id_column df)) as Hmax.
    destruct (Series_max (id_column df)) as [m|]; [|done].
    destruct Hmax as [Hin _]. by apply Hnone in Hin.
  - intros w Hw. unfold read_last_id. by rewrite Hw.
Qed.

Lemma missing_maximum_raises_witness :
  get_max_id {| id_column := [None; None] |} = Raise TypeError.
Proof.
  apply (missing_maximum_raises (λ _, None) {| id_column := [None; None] |}).
  intros z Hz. simpl in Hz.
  repeat (apply elem_of_cons in Hz as [Hz|Hz]; [discriminate Hz|]).
  by apply elem_of_nil in Hz.
Defined.
